(** * txmn.workers._sim: parameter transform, migration matrix, statistic rows

    A shallow embedding of [src/txmn/workers.py] (function [_sim]) and the
    properties of it that the specification states.

    Numbers.  Python floats are modelled by the elements of an arbitrary real
    field [F] (exact arithmetic, no rounding, no infinities); the one
    non-finite value the code itself tests for, NaN, is kept as a constructor
    of [npfloat], the type of the entries of the statistic arrays.  Python's
    float power [10 ** eta] has no counterpart in a field and is the
    parameter [pow10].

    External code.  [msprime.simulate] and the class [txmn.classes.MetaSample]
    are not part of the modelled file: the engine is the parameter
    [simulate], and a [MetaSample] is the record of what its methods return. *)

Set Warnings "-notation-overridden,-ambiguous-paths,-notation-incompatible-prefix".
Set Warnings "-rewrite-rw,-deprecated".
From HB Require Import structures.
From Stdlib Require Import String.
From mathcomp Require Import boot order algebra.

Set Implicit Arguments.
Unset Strict Implicit.
Unset Printing Implicit Defensive.

Import GRing.Theory Num.Theory.
Local Open Scope ring_scope.

(** Statistic names are Python strings; [==] and [\in] on them. *)
HB.instance Definition _ := hasDecEq.Build string String.eqb_spec.

(** ** Exceptions and the error monad *)

(** The exceptions [_sim] can end with.  [EngineError] stands for whatever
    the external simulator or sample class raises. *)
Inductive exn :=
  | ZeroDivisionError
  | NotImplementedError
  | LinAlgError
  | UnboundLocalError
  | KeyError
  | ValueError
  | IndexError
  | EngineError.

Inductive result (A : Type) :=
  | Ok of A
  | Raise of exn.

Arguments Ok {A} _.
Arguments Raise {A} _.

Definition bind {A B : Type} (r : result A) (k : A -> result B) : result B :=
  match r with
  | Ok a => k a
  | Raise e => Raise e
  end.

Notation "x <- e ;; k" := (bind e (fun x => k))
  (at level 100, e at next level, right associativity, only parsing).

Definition is_ok {A : Type} (r : result A) : bool :=
  if r is Ok _ then true else false.

(** ** Lines 74-105: from the parameters to the simulator's arguments *)

Section ParameterTransform.

Variable F : realFieldType.

(** [10 ** eta]. *)
Variable pow10 : F -> F.

(** [params]: the tuple [(eta, tau, rho)]. *)
Definition params : Type := (F * F * F)%type.

(** Line 75: [A = tau + rho * (1 - rho * tau) * (1 - tau) ** 2]. *)
Definition A_of (p : params) : F :=
  let: (eta, tau, rho) := p in
  tau + rho * (1 - rho * tau) * (1 - tau) ^+ 2.

(** Line 76: [symbiont_Nm = np.true_divide(host_Nm * rho, A)]. *)
Definition symbiont_Nm (p : params) (host_Nm : F) : F :=
  let: (eta, tau, rho) := p in
  host_Nm * rho / A_of p.

(** Line 77: [symbiont_theta = np.true_divide(10 ** eta * host_theta * rho, A)]. *)
Definition symbiont_theta (p : params) (host_theta : F) : F :=
  let: (eta, tau, rho) := p in
  pow10 eta * host_theta * rho / A_of p.

(** Python's [/] on Python numbers: a zero divisor raises. *)
Definition pydiv (x y : F) : result F :=
  if y == 0 then Raise ZeroDivisionError else Ok (x / y).

Section Migration.

(** [num_populations = len(population_config)]; the supplied matrix, when
    there is one, is taken [num_populations] x [num_populations], the shape
    the simulator demands. *)
Variable num_populations : nat.
Let n := num_populations.

(** [np.full((n, n), x)]. *)
Definition np_full (x : F) : 'M[F]_n := const_mx x.

(** [np.fill_diagonal(m, x)]. *)
Definition fill_diagonal (m : 'M[F]_n) (x : F) : 'M[F]_n :=
  \matrix_(i, j) (if i == j then x else m i j).

(** [np.all(migration == migration.T)]. *)
Definition symmetrical (m : 'M[F]_n) : bool := m == m^T.

(** [linalg.inv]: raises [LinAlgError] on a singular matrix. *)
Definition linalg_inv (m : 'M[F]_n) : result 'M[F]_n :=
  if m \in unitmx then Ok (invmx m) else Raise LinAlgError.

(** Lines 92-96: the (1, 1) array
    [ones((1, n)) @ m_inv @ full((n, 1), symbiont_Nm) / n], read at its
    only entry. *)
Definition migration_constant (m_inv : 'M[F]_n) (s_Nm : F) : F :=
  ((const_mx 1 : 'rV[F]_n) *m m_inv *m (const_mx s_Nm : 'cV[F]_n)) 0 0 / n%:R.

(** Line 97: [migration * migration_constant], entry by entry. *)
Definition scale_entries (m : 'M[F]_n) (c : F) : 'M[F]_n :=
  \matrix_(i, j) (m i j * c).

(** Lines 79-97: the migration matrix handed to the simulator. *)
Definition build_migration (s_Nm : F) (migration : option 'M[F]_n) :
  result 'M[F]_n :=
  match migration with
  | None => Ok (fill_diagonal (np_full (s_Nm / (n%:R - 1))) 0)
  | Some m =>
      if ~~ symmetrical m then Raise NotImplementedError
      else
        m_inv <- linalg_inv m ;;
        Ok (scale_entries m (migration_constant m_inv s_Nm))
  end.

(** The keyword arguments of the call [ms.simulate(...)], lines 98-105. *)
Record sim_args := SimArgs {
  Ne : F;
  num_replicates : nat;
  migration_matrix : 'M[F]_n;
  mutation_rate : F
}.

(** Lines 74-105 up to the call: the arguments [_sim] evaluates for the
    simulator.  The matrix is built first (lines 79-97); [rho / (2 * A)] is
    a division of Python numbers and raises on [A = 0]. *)
Definition simulate_args (p : params) (host_theta host_Nm : F)
    (nrep : nat) (migration : option 'M[F]_n) : result sim_args :=
  let: (eta, tau, rho) := p in
  let A := A_of p in
  let s_Nm := symbiont_Nm p host_Nm in
  let s_theta := symbiont_theta p host_theta in
  mig <- build_migration s_Nm migration ;;
  ne <- pydiv rho (2 * A) ;;
  Ok (SimArgs ne nrep mig (s_theta / 2)).

End Migration.

End ParameterTransform.

(** ** Lines 106-161: the statistic rows *)

Local Open Scope string_scope.

(** The statistic names the docstring of [_sim] lists (lines 58-60). *)
Definition stat_names : seq string :=
  [:: "fst_mean"; "fst_sd"; "pi_h"; "pi_nei"; "pi_tajima"; "theta_w";
      "num_sites"].

Section Reducer.

Variable F : realFieldType.

(** An entry of a NumPy float array: a number or NaN. *)
Inductive npfloat :=
  | Num of F
  | NaN.

(** [np.isnan]. *)
Definition isnan (x : npfloat) : bool :=
  if x is NaN then true else false.

Definition num_of (x : npfloat) : F :=
  if x is Num a then a else 0.

(** What a method of the sample returns and what a column is assigned: a
    scalar or a one-dimensional array. *)
Inductive ndval :=
  | Scalar of npfloat
  | Vec of seq npfloat.

Definition elems (v : ndval) : seq npfloat :=
  match v with
  | Scalar x => [:: x]
  | Vec xs => xs
  end.

(** [np.mean]: NaN on an empty array and whenever an entry is NaN. *)
Definition np_mean (v : ndval) : npfloat :=
  match v with
  | Scalar x => x
  | Vec xs =>
      if has isnan xs || (size xs == 0%N) then NaN
      else Num ((\sum_(x <- xs) num_of x) / (size xs)%:R)
  end.

(** The three estimators [pi_method] selects. *)
Inductive pi_method := PiH | PiNei | PiTajima.

(** Modelled from the spec: [txmn.classes.MetaSample] is not among the
    sources.  A sample is what its methods return on the calls [_sim] makes:
    [fst b] is [fst(average_sites=True, average_reps=b,
    summary=("mean", "sd"), h_opts=h_opts)], a dictionary from summary names
    to values; [pi], [segsites] and [theta_w] return one value per
    replicate.  Each call may raise. *)
Record MetaSample := {
  fst : bool -> result (seq (string * ndval));
  pi : pi_method -> result ndval;
  segsites : result ndval;
  theta_w : result ndval
}.

(** [d[k]] on a dictionary. *)
Fixpoint getitem (d : seq (string * ndval)) (k : string) : result ndval :=
  if d is kv :: d' then
    if kv.1 == k then Ok kv.2 else getitem d' k
  else Raise KeyError.

(** Line 112: [len(set(("fst_mean", "fst_sd")).intersection(set(stats))) > 0]. *)
Definition wants_fst (stats : seq string) : bool :=
  (0 < size (undup [seq s <- [:: "fst_mean"; "fst_sd"] | s \in stats]))%N.

(** Line 119: [np.isnan(np.array(list(fst_summ.values()))).any()]. *)
Definition any_nan (fst_summ : seq (string * ndval)) : bool :=
  has isnan (flatten [seq elems kv.2 | kv <- fst_summ]).

(** [np.zeros((r, c))]. *)
Definition np_zeros (r c : nat) : seq (seq npfloat) :=
  nseq r (nseq c (Num 0)).

(** Broadcasting a value to a column of [r] entries. *)
Definition broadcast (r : nat) (v : ndval) : result (seq npfloat) :=
  match v with
  | Scalar x => Ok (nseq r x)
  | Vec xs =>
      if size xs == r then Ok xs
      else if size xs == 1%N then Ok (nseq r (nth NaN xs 0))
      else Raise ValueError
  end.

(** [out[:, j] = v]. *)
Definition setcol (out : seq (seq npfloat)) (j : nat) (v : ndval) :
  result (seq (seq npfloat)) :=
  col <- broadcast (size out) v ;;
  Ok [seq set_nth NaN rc.1 j rc.2 | rc <- zip out col].

(** [x if not average_reps else np.mean(x)]. *)
Definition per_rep_or_mean (average_reps : bool) (x : ndval) : ndval :=
  if ~~ average_reps then x else Scalar (np_mean x).

(** Lines 122-157: the value the branch for [stat] assigns to its column;
    [None] when no branch matches. *)
Definition stat_value (treesample : MetaSample)
    (fst_summ : seq (string * ndval)) (average_reps : bool) (stat : string) :
  result (option ndval) :=
  if stat == "pi_h" then
    x <- pi treesample PiH ;; Ok (Some (per_rep_or_mean average_reps x))
  else if stat == "pi_nei" then
    x <- pi treesample PiNei ;; Ok (Some (per_rep_or_mean average_reps x))
  else if stat == "pi_tajima" then
    x <- pi treesample PiTajima ;; Ok (Some (per_rep_or_mean average_reps x))
  else if stat == "num_sites" then
    x <- segsites treesample ;; Ok (Some (per_rep_or_mean average_reps x))
  else if stat == "theta_w" then
    x <- theta_w treesample ;; Ok (Some (per_rep_or_mean average_reps x))
  else if stat == "fst_mean" then
    x <- getitem fst_summ "mean" ;; Ok (Some x)
  else if stat == "fst_sd" then
    x <- getitem fst_summ "sd" ;; Ok (Some x)
  else Ok None.

(** Lines 121-157: [for statidx, stat in enumerate(stats)], from index
    [statidx] on. *)
Fixpoint fill_stats (treesample : MetaSample)
    (fst_summ : seq (string * ndval)) (average_reps : bool)
    (stats : seq string) (statidx : nat) (out : seq (seq npfloat)) :
  result (seq (seq npfloat)) :=
  if stats is stat :: stats' then
    v <- stat_value treesample fst_summ average_reps stat ;;
    out' <- (if v is Some x then setcol out statidx x else Ok out) ;;
    fill_stats treesample fst_summ average_reps stats' statidx.+1 out'
  else Ok out.

(** What [_sim] returns: the row [out[0]] or the whole table [out]. *)
Inductive ndarray :=
  | Row of seq npfloat
  | Table of seq (seq npfloat).

Definition rows_of (a : ndarray) : seq (seq npfloat) :=
  match a with
  | Row r => [:: r]
  | Table t => t
  end.

(** [out[k, i]]. *)
Definition entry (out : seq (seq npfloat)) (k i : nat) : npfloat :=
  nth NaN (nth [::] out k) i.

(** An array of [r] rows of [c] entries. *)
Definition shape (r c : nat) (out : seq (seq npfloat)) : Prop :=
  size out = r /\ forall k, (k < r)%N -> size (nth [::] out k) = c.

(** How a run of lines 106-161 ends: whether [breakpoint()] of line 120 was
    reached (the run is resumed from the debugger), and the value returned
    or the exception raised. *)
Definition outcome : Type := (bool * result ndarray)%type.

Definition breakpoint_hit (o : outcome) : bool := o.1.
Definition returned (o : outcome) : result ndarray := o.2.

(** Lines 106-161.  [fst_summ] is assigned only under the test of line 112;
    line 119 reads it in every run. *)
Definition summary_statistics (treesample : MetaSample) (p : params F)
    (stats : seq string) (nrep : nat) (average_reps : bool) : outcome :=
  let: (eta, tau, rho) := p in
  let ncols := (size stats + 3)%N in
  let out := np_zeros (if ~~ average_reps then nrep else 1%N) ncols in
  let fst_summ :=
    if wants_fst stats then
      d <- fst treesample average_reps ;; Ok (Some d)
    else Ok None in
  match fst_summ with
  | Raise e => (false, Raise e)
  | Ok None => (false, Raise UnboundLocalError)
  | Ok (Some d) =>
      (any_nan d,
       out <- fill_stats treesample d average_reps stats 0 out ;;
       out <- setcol out (ncols - 3) (Scalar (Num eta)) ;;
       out <- setcol out (ncols - 2) (Scalar (Num tau)) ;;
       out <- setcol out (ncols - 1) (Scalar (Num rho)) ;;
       if ~~ average_reps then Ok (Table out)
       else if out is row :: _ then Ok (Row row) else Raise IndexError)
  end.

(** ** The whole of [_sim] *)

Variable pow10 : F -> F.

(** [ms.simulate(...)] followed by [MetaSample(tree, populations,
    keep_populations)]: the external engine and the sample built on its
    replicates. *)
Variable simulate : forall n : nat, sim_args F n -> result MetaSample.

Definition _sim (num_populations : nat) (p : params F)
    (host_theta host_Nm : F) (nrep : nat) (stats : seq string)
    (migration : option 'M[F]_num_populations) (average_reps : bool) :
  outcome :=
  match simulate_args pow10 p host_theta host_Nm nrep migration with
  | Raise e => (false, Raise e)
  | Ok args =>
      match simulate args with
      | Raise e => (false, Raise e)
      | Ok treesample =>
          summary_statistics treesample p stats nrep average_reps
      end
  end.

End Reducer.

Arguments NaN {F}.
Arguments isnan {F} x.

(** ** Concrete inputs

    Runs on the rationals, used to evaluate the model on explicit inputs. *)

Local Open Scope ring_scope.

(** [10 ** eta] on the rationals: exact at the integers, the only
    exponents the runs below use (a rational power of ten has no rational
    value in general). *)
Definition pow10_rat (eta : rat) : rat := 10 ^ numq eta.

(** [np.array(rows)] for a list of [n] rows of [n] entries. *)
Definition mx_of_rows (n : nat) (rows : seq (seq rat)) : 'M[rat]_n :=
  \matrix_(i, j) nth 0 (nth [::] rows i) j.

(** A relative migration matrix among three populations: symmetric,
    non-negative, zero on the diagonal, determinant 8. *)
Definition rel3 : 'M[rat]_3 :=
  mx_of_rows 3 [:: [:: 0; 1; 1]; [:: 1; 0; 4]; [:: 1; 4; 0]].

Definition rel3_inv : 'M[rat]_3 :=
  mx_of_rows 3 [:: [:: -2%:R; 1 / 2; 1 / 2];
                   [:: 1 / 2; - (1 / 8); 1 / 8];
                   [:: 1 / 2; 1 / 8; - (1 / 8)]].

(** A second one, determinant 12, with row sums 3, 4 and 5. *)
Definition rel3' : 'M[rat]_3 :=
  mx_of_rows 3 [:: [:: 0; 1; 2]; [:: 1; 0; 3]; [:: 2; 3; 0]].

Definition rel3'_inv : 'M[rat]_3 :=
  mx_of_rows 3 [:: [:: - (3 / 4); 1 / 2; 1 / 4];
                   [:: 1 / 2; - (1 / 3); 1 / 6];
                   [:: 1 / 4; 1 / 6; - (1 / 12)]].

(** Two populations exchanging migrants at relative rate 2. *)
Definition rel2 : 'M[rat]_2 := mx_of_rows 2 [:: [:: 0; 2]; [:: 2; 0]].

Definition rel2_inv : 'M[rat]_2 :=
  mx_of_rows 2 [:: [:: 0; 1 / 2]; [:: 1 / 2; 0]].

(** An asymmetric matrix. *)
Definition skew2 : 'M[rat]_2 := mx_of_rows 2 [:: [:: 0; 1]; [:: 2; 0]].

(** A sample of two replicates whose Fst summary is NaN-free and whose
    [pi] with method "h" is NaN on the second replicate. *)
Definition sample2 : MetaSample rat := {|
  fst := fun average_reps =>
    if average_reps
    then Ok [:: ("mean", Scalar (Num (1 / 4))); ("sd", Scalar (Num (1 / 8)))]
    else Ok [:: ("mean", Vec [:: Num (1 / 8); Num (3 / 8)]);
                ("sd", Vec [:: Num 0; Num 0])];
  pi := fun m =>
    if m is PiH then Ok (Vec [:: Num 1; NaN]) else Ok (Vec [:: Num 1; Num 3]);
  segsites := Ok (Vec [:: Num 5; Num 7]);
  theta_w := Ok (Vec [:: Num 2; Num 4])
|}.

(** An engine that returns [sample2] whatever it is asked. *)
Definition engine2 (n : nat) (_ : sim_args rat n) : result (MetaSample rat) :=
  Ok sample2.

(** The spec's scenario ([eta = 0], [tau = 1], [rho = 1/2], [host_theta = 1],
    [host_Nm = 2], two populations, no matrix supplied) with two
    replicates, on the engine [engine2]. *)
Definition run (stats : seq string) (average_reps : bool) : outcome rat :=
  _sim pow10_rat engine2 (0, 1, 1 / 2) 1 2 2 stats (None : option 'M[rat]_2)
    average_reps.
(** ** Properties of lines 74-105 *)

Section TransformProperties.

Variable F : realFieldType.
Variable pow10 : F -> F.

Lemma pydiv_double (x A : F) :
  pydiv x (2 * A) = if A == 0 then Raise ZeroDivisionError else Ok (x / (2 * A)).
Proof. by rewrite /pydiv mulf_eq0 pnatr_eq0. Qed.

(** The arguments for the simulator, in closed form, given the matrix. *)
Lemma simulate_args_eq n (p : params F) (host_theta host_Nm : F) nrep
    (migration : option 'M[F]_n) (mig : 'M[F]_n) :
  build_migration (symbiont_Nm p host_Nm) migration = Ok mig ->
  simulate_args pow10 p host_theta host_Nm nrep migration =
    if A_of p == 0 then Raise ZeroDivisionError
    else Ok (SimArgs (p.2 / (2 * A_of p)) nrep mig
               (symbiont_theta pow10 p host_theta / 2)).
Proof.
case: p => [[eta tau] rho] Hmig.
by rewrite /simulate_args Hmig /= pydiv_double; case: ifP.
Qed.

(** C1: the parameter transform computes
    [A = tau + rho * (1 - rho * tau) * (1 - tau)^2] and hands the simulator
    the effective size [rho / (2 * A)] and the mutation rate
    [10^eta * host_theta * rho / A / 2]; the migration matrix is built from
    [symbiont_Nm = host_Nm * rho / A]. *)
Theorem C1_parameter_transform n (eta tau rho host_theta host_Nm : F) nrep
    (migration : option 'M[F]_n) (mig : 'M[F]_n) :
  let A := tau + rho * (1 - rho * tau) * (1 - tau) ^+ 2 in
  A != 0 ->
  build_migration (host_Nm * rho / A) migration = Ok mig ->
  [/\ A_of (eta, tau, rho) = A,
      symbiont_Nm (eta, tau, rho) host_Nm = host_Nm * rho / A &
      simulate_args pow10 (eta, tau, rho) host_theta host_Nm nrep migration =
        Ok (SimArgs (rho / (2 * A)) nrep mig
              (pow10 eta * host_theta * rho / A / 2))].
Proof.
move=> A A0 Hmig; split=> //.
by rewrite (@simulate_args_eq _ _ _ _ _ _ mig) //= (negbTE A0).
Qed.

(** C2, as the code has it: no test of [A] is made.  Once the migration
    matrix is built, [A = 0] ends in the [ZeroDivisionError] of
    [rho / (2 * A)], and every other [A], the negative ones too, gives the
    simulator its arguments; the effective size is negative when
    [A < 0 < rho]. *)
Theorem C2_no_domain_check n (p : params F) (host_theta host_Nm : F) nrep
    (migration : option 'M[F]_n) (mig : 'M[F]_n) :
  build_migration (symbiont_Nm p host_Nm) migration = Ok mig ->
  simulate_args pow10 p host_theta host_Nm nrep migration =
    (if A_of p == 0 then Raise ZeroDivisionError
     else Ok (SimArgs (p.2 / (2 * A_of p)) nrep mig
                (symbiont_theta pow10 p host_theta / 2)))
  /\ (A_of p < 0 -> 0 < p.2 -> p.2 / (2 * A_of p) < 0).
Proof.
move=> Hmig; split; first exact: simulate_args_eq.
move=> A0 rho0; rewrite pmulr_rlt0 // invr_lt0.
by rewrite pmulr_rlt0 // ltr0n.
Qed.

Section MigrationProperties.

Variable n : nat.
Implicit Types (m : 'M[F]_n) (s : F).

Lemma build_migration_default s :
  build_migration s None = Ok (fill_diagonal (np_full n (s / (n%:R - 1))) 0).
Proof. by []. Qed.

Lemma build_migration_asymmetric m s :
  ~~ symmetrical m -> build_migration s (Some m) = Raise NotImplementedError.
Proof. by rewrite /build_migration => ->. Qed.

Lemma build_migration_rescale m s :
  symmetrical m -> m \in unitmx ->
  build_migration s (Some m) =
    Ok (scale_entries m (migration_constant (invmx m) s)).
Proof. by rewrite /build_migration /linalg_inv => -> ->. Qed.

(** Only a symmetric, invertible matrix gets as far as the rescaling. *)
Lemma build_migration_ok m s mig :
  build_migration s (Some m) = Ok mig ->
  [/\ symmetrical m, m \in unitmx &
      mig = scale_entries m (migration_constant (invmx m) s)].
Proof.
rewrite /build_migration /linalg_inv; case: (symmetrical m) => //=.
by case: (m \in unitmx) => //= -[<-].
Qed.

Lemma scale_entriesE m (c : F) : scale_entries m c = c *: m.
Proof. by apply/matrixP => i j; rewrite !mxE mulrC. Qed.

(** A matrix times the column of ones: the row sums. *)
Lemma mulmx_ones m i : (m *m (const_mx 1 : 'cV[F]_n)) i 0 = \sum_j m i j.
Proof.
by rewrite mxE; apply: eq_bigr => j _; rewrite mxE mulr1.
Qed.

(** The constant, with the inverse applied to the column of ones. *)
Lemma migration_constantE (m_inv : 'M[F]_n) s :
  migration_constant m_inv s = s * (\sum_i \sum_j m_inv i j) / n%:R.
Proof.
rewrite /migration_constant -mulmxA mxE; congr (_ / _).
rewrite mulr_sumr; apply: eq_bigr => i _.
rewrite !mxE mul1r mulr_sumr.
by apply: eq_bigr => j _; rewrite mxE mulrC.
Qed.

(** When all rows of an invertible matrix have the sum [r], all rows of
    its inverse have the sum [1 / r]. *)
Lemma inverse_row_sums m (r : F) (i : 'I_n) :
  m \in unitmx -> (forall k, \sum_j m k j = r) ->
  r != 0 /\ (forall k, \sum_j (invmx m) k j = r^-1).
Proof.
move=> Um Hr; pose u : 'cV[F]_n := const_mx 1.
have Hu : m *m u = r *: u.
  by apply/matrixP => k j; rewrite ord1 mulmx_ones Hr !mxE mulr1.
have Hinv : u = r *: (invmx m *m u).
  by rewrite scalemxAr -Hu mulKmx.
have r0 : r != 0.
  apply/eqP => r0; move: (congr1 (fun A : 'cV[F]_n => A i 0) Hinv).
  by rewrite r0 scale0r !mxE => /eqP; rewrite oner_eq0.
split=> // k; rewrite -mulmx_ones -/u.
move: (congr1 (fun A : 'cV[F]_n => r^-1 * A k 0) Hinv).
by rewrite [in LHS]mxE mulr1 mxE mulKf.
Qed.

(** C3, as the code has it: for a symmetric invertible matrix the rescale
    mode multiplies every entry by
    [migration_constant = (ones * inverse(m) * (symbiont_Nm * ones)) / n];
    when all rows of the supplied matrix have the same sum, every row of
    the result sums to [symbiont_Nm]; and when the constant is not zero,
    the constant computed from the result is 1. *)
Theorem C3_rescale m s :
  symmetrical m -> m \in unitmx ->
  let c := ((const_mx 1 : 'rV[F]_n) *m invmx m *m (const_mx s : 'cV[F]_n)) 0 0
           / n%:R in
  let mig : 'M[F]_n := \matrix_(i, j) (m i j * c) in
  [/\ build_migration s (Some m) = Ok mig,
      forall r, (forall i, \sum_j m i j = r) -> forall i, \sum_j mig i j = s &
      c != 0 -> migration_constant (invmx mig) s = 1].
Proof.
move=> Sm Um c mig.
have migE : mig = c *: m by rewrite -scale_entriesE.
split; first exact: build_migration_rescale.
- move=> r Hr i; have [r0 Hinv] := inverse_row_sums i Um Hr.
  have n0 : n%:R != 0 :> F by rewrite pnatr_eq0 -lt0n (leq_trans _ (ltn_ord i)).
  have cE : c = s / r.
    rewrite /c -/(migration_constant _ _) migration_constantE.
    rewrite (eq_bigr (fun=> r^-1)) // sumr_const card_ord.
    by rewrite -mulr_natr mulrA mulfK.
  have -> : \sum_j mig i j = \sum_j m i j * (s / r).
    by apply: eq_bigr => j _; rewrite mxE cE.
  by rewrite -mulr_suml Hr mulrCA divff ?mulr1.
- move=> c0; rewrite migE invmxZ ?unitmxZ ?unitfE //.
  rewrite /migration_constant -scalemxAr -scalemxAl mxE -mulrA.
  by rewrite -/(migration_constant _ _) -/c mulVf.
Qed.

(** C8: without a supplied matrix and with at least two populations, the
    matrix built has [symbiont_Nm / (num_populations - 1)] off the diagonal
    and zero on it, and is symmetric. *)
Theorem C8_default_migration s :
  (2 <= n)%N ->
  exists2 mig : 'M[F]_n,
    build_migration s None = Ok mig &
    [/\ forall i j, i != j -> mig i j = s / (n - 1)%:R,
        forall i, mig i i = 0 & mig^T = mig].
Proof.
move=> n2; exists (fill_diagonal (np_full n (s / (n%:R - 1))) 0) => //.
split=> [i j ij | i |].
- by rewrite !mxE (negbTE ij) natrB // (ltnW n2).
- by rewrite mxE eqxx.
- by apply/matrixP => i j; rewrite !mxE eq_sym.
Qed.

End MigrationProperties.

End TransformProperties.

(** ** Properties of lines 106-161 *)

Section ReducerProperties.

Variable F : realFieldType.

Implicit Types (out : seq (seq (npfloat F))) (v : ndval F) (x : npfloat F).
Implicit Types (d : seq (string * ndval F)) (ts : MetaSample F).
Implicit Types (stats : seq string) (stat : string).

Local Open Scope nat_scope.

Lemma wants_fstE stats :
  wants_fst stats = ("fst_mean" \in stats) || ("fst_sd" \in stats).
Proof.
by rewrite /wants_fst /=; case: ("fst_mean" \in stats); case: ("fst_sd" \in stats).
Qed.

Lemma shape_zeros r c : shape r c (np_zeros F r c).
Proof.
by split=> [|k kr]; rewrite /np_zeros ?size_nseq // nth_nseq kr size_nseq.
Qed.

Lemma entry_zeros r c k i : k < r -> i < c -> entry (np_zeros F r c) k i = Num 0.
Proof. by move=> kr ic; rewrite /entry /np_zeros nth_nseq kr nth_nseq ic. Qed.

Lemma broadcast_size r v col : broadcast r v = Ok col -> size col = r.
Proof.
case: v => [x|xs] /=; first by case=> <-; rewrite size_nseq.
case: eqP => [<- [<-] //|_]; case: eqP => // _ [<-].
by rewrite size_nseq.
Qed.

(** An entry of a broadcast column is an entry of the value. *)
Lemma broadcast_elem r v col k (p : pred (npfloat F)) :
  broadcast r v = Ok col -> k < r -> all p (elems v) -> p (nth NaN col k).
Proof.
case: v => [x|xs] /=.
  by case=> <- kr; rewrite andbT nth_nseq kr.
case: eqP => [<- [<-] kr /all_nthP|_]; first exact.
case: eqP => // sz1 [<-] kr /all_nthP H.
by rewrite nth_nseq kr; apply: H; rewrite sz1.
Qed.

(** [out[:, j] = v] on an [r] x [c] array with [j < c]. *)
Lemma setcol_spec r c out j v out' :
  shape r c out -> j < c -> setcol out j v = Ok out' ->
  shape r c out' /\
  exists2 col, broadcast r v = Ok col &
    forall k i, k < r ->
      entry out' k i = if i == j then nth NaN col k else entry out k i.
Proof.
case=> szo wd jc; rewrite /setcol szo.
case Hb: (broadcast r v) => [col|] //= [<-].
have szc := broadcast_size Hb.
have E k : k < r ->
    nth [::] [seq set_nth NaN rc.1 j rc.2 | rc <- zip out col] k =
    set_nth NaN (nth [::] out k) j (nth NaN col k).
  move=> kr; rewrite (nth_map ([::], NaN)) ?size_zip ?szo ?szc ?minnn //.
  by rewrite nth_zip ?szo ?szc.
split; [split | exists col => // k i kr].
- by rewrite size_map size_zip szo szc minnn.
- by move=> k kr; rewrite E // size_set_nth wd //; apply/maxn_idPr.
- by rewrite /entry E // nth_set_nth.
Qed.

(** A scalar can always be assigned. *)
Lemma setcol_scalar r c out j x :
  shape r c out -> j < c ->
  exists out', [/\ setcol out j (Scalar x) = Ok out', shape r c out' &
    forall k i, k < r -> entry out' k i = if i == j then x else entry out k i].
Proof.
move=> sh jc; rewrite {1}/setcol /=; eexists; split; first by [].
  by have [] := setcol_spec sh jc (erefl (setcol out j (Scalar x))).
have [_ [col /= [<-] H]] := setcol_spec sh jc (erefl (setcol out j (Scalar x))).
by move=> k i kr; rewrite H // nth_nseq kr.
Qed.

(** What the loop of lines 121-157 leaves in the columns. *)
Lemma fill_stats_spec ts d avg r c stats : forall idx out out',
  shape r c out -> idx + size stats <= c ->
  fill_stats ts d avg stats idx out = Ok out' ->
  [/\ shape r c out',
      forall i, (i < idx) || (idx + size stats <= i) ->
        forall k, k < r -> entry out' k i = entry out k i
    & forall t, t < size stats ->
        exists2 ov, stat_value ts d avg (nth "" stats t) = Ok ov &
          match ov with
          | Some v =>
              exists2 col, broadcast r v = Ok col &
                forall k, k < r -> entry out' k (idx + t) = nth NaN col k
          | None =>
              forall k, k < r -> entry out' k (idx + t) = entry out k (idx + t)
          end].
Proof.
elim: stats => [|stat stats IH] idx out out' sh le /=; first by case=> <-.
case Hv: (stat_value ts d avg stat) => [ov|] //=.
case Hs: (if ov is Some x then setcol out idx x else Ok out) => [out1|] //= Hfill.
have idxc : idx < c by apply: leq_trans le; rewrite addnS ltnS leq_addr.
have [sh1 Hcol1] : shape r c out1 /\
    match ov with
    | Some v =>
        exists2 col, broadcast r v = Ok col &
          forall k i, k < r ->
            entry out1 k i = if i == idx then nth NaN col k else entry out k i
    | None => out1 = out
    end.
  case: ov Hs {Hv} => [v|] Hs; last by case: Hs => <-.
  exact: setcol_spec Hs.
have le1 : idx.+1 + size stats <= c by rewrite addSnnS.
have [sh' Hout Hin] := IH idx.+1 out1 out' sh1 le1 Hfill.
have Hidx k : k < r -> entry out' k idx = entry out1 k idx.
  by move=> kr; apply: Hout => //; rewrite ltnSn.
split=> // [i Hi k kr | [|t] tlt].
- have neq : i != idx.
    case/orP: Hi => [|Hi]; first by rewrite ltn_neqAle => /andP[].
    by rewrite gtn_eqF //; apply: leq_trans Hi; rewrite addnS ltnS leq_addr.
  have Hi1 : (i < idx.+1) || (idx.+1 + size stats <= i).
    case/orP: Hi => [/ltnW Hi|Hi]; first by rewrite ltnS Hi.
    by rewrite addSnnS Hi orbT.
  rewrite (Hout _ Hi1) //.
  case: ov Hcol1 {Hs Hv} => [v [col _ H]|Hc]; last by rewrite Hc.
  by rewrite H // (negbTE neq).
- exists ov; first exact: Hv.
  rewrite addn0.
  case: ov Hcol1 {Hs Hv} => [v [col Hb H]|Hc].
    by exists col => // k kr; rewrite Hidx // H // eqxx.
  by move=> k kr; rewrite Hidx // Hc.
- have [ov' H1 H2] := Hin t tlt; exists ov' => //.
  rewrite addnS -addSn; case: ov' H2 {H1} => [v' //| H2 k kr].
  rewrite H2 //; case: ov Hcol1 {Hs Hv} => [v [col _ H]|Hc]; last by rewrite Hc.
  by rewrite H // gtn_eqF // ltnS leq_addr.
Qed.

Lemma neg_index (m : nat) :
  [/\ m + 3 - 3 = m, m + 3 - 2 = m.+1 & m + 3 - 1 = m.+2].
Proof. by rewrite !addnS !subSS !subn0 addn0. Qed.

Lemma pair_eq (A B : Type) (a a' : A) (b b' : B) :
  (a, b) = (a', b') -> a = a' /\ b = b'.
Proof. by case. Qed.

Lemma bind_Ok (A B : Type) (a : A) (k : A -> result B) : bind (Ok a) k = k a.
Proof. by []. Qed.

Lemma bind_Raise (A B : Type) e (k : A -> result B) : bind (Raise e) k = Raise e.
Proof. by []. Qed.

(** Lines 112-120 decide whether the rows are computed at all. *)
Lemma summary_statisticsE ts (eta tau rho : F) stats nrep avg :
  summary_statistics ts (eta, tau, rho) stats nrep avg =
    if wants_fst stats then
      match fst ts avg with
      | Ok d =>
          (any_nan d,
           out <- fill_stats ts d avg stats 0
                    (np_zeros F (if ~~ avg then nrep else 1) (size stats + 3)) ;;
           out <- setcol out (size stats + 3 - 3) (Scalar (Num eta)) ;;
           out <- setcol out (size stats + 3 - 2) (Scalar (Num tau)) ;;
           out <- setcol out (size stats + 3 - 1) (Scalar (Num rho)) ;;
           if ~~ avg then Ok (Table out)
           else if out is row :: _ then Ok (Row row) else Raise IndexError)
      | Raise e => (false, Raise e)
      end
    else (false, Raise UnboundLocalError).
Proof.
by rewrite /summary_statistics; case: (wants_fst stats); case: (fst ts avg).
Qed.

(** A run of lines 106-161 that returns: the array it returns. *)
Lemma summary_statistics_ok ts (eta tau rho : F) stats nrep avg bp a :
  summary_statistics ts (eta, tau, rho) stats nrep avg = (bp, Ok a) ->
  let r := if ~~ avg then nrep else 1 in
  exists d out,
    [/\ wants_fst stats /\ fst ts avg = Ok d,
        bp = any_nan d,
        a = (if ~~ avg then Table out else Row (nth [::] out 0)) /\
        rows_of a = out,
        shape r (size stats + 3) out
      & (forall k, k < r ->
           [/\ entry out k (size stats) = Num eta,
               entry out k (size stats).+1 = Num tau
             & entry out k (size stats).+2 = Num rho]) /\
        (forall t, t < size stats ->
           exists2 ov, stat_value ts d avg (nth "" stats t) = Ok ov &
             match ov with
             | Some v =>
                 exists2 col, broadcast r v = Ok col &
                   forall k, k < r -> entry out k t = nth NaN col k
             | None => forall k, k < r -> entry out k t = Num 0
             end)].
Proof.
rewrite summary_statisticsE; have [-> -> ->] := neg_index (size stats).
set r := if ~~ avg then nrep else 1; set c := size stats + 3.
case: (wants_fst stats); last by [].
case Hd: (fst ts avg) => [d|]; last by [].
move=> H; have [{H} Hbp] := pair_eq H; rewrite -{bp}Hbp.
case Hf: (fill_stats ts d avg stats 0 (np_zeros F r c)) => [out1|]; last by [].
have le0 : 0 + size stats <= c by rewrite add0n leq_addr.
have [sh1 _ Hst] := fill_stats_spec (shape_zeros r c) le0 Hf.
have c0 : size stats < c by rewrite /c addnS ltnS leq_addr.
have c1 : (size stats).+1 < c by rewrite /c 2!addnS !ltnS leq_addr.
have c2 : (size stats).+2 < c by rewrite /c 3!addnS !ltnS leq_addr.
have [out2 [E2 sh2 H2]] := @setcol_scalar r c out1 _ (Num eta) sh1 c0.
have [out3 [E3 sh3 H3]] := @setcol_scalar r c out2 _ (Num tau) sh2 c1.
have [out4 [E4 sh4 H4]] := @setcol_scalar r c out3 _ (Num rho) sh3 c2.
rewrite bind_Ok E2 bind_Ok E3 bind_Ok E4 bind_Ok => Ha.
have E k i : k < r -> entry out4 k i =
    if i == (size stats).+2 then Num rho
    else if i == (size stats).+1 then Num tau
    else if i == size stats then Num eta else entry out1 k i.
  by move=> kr; rewrite H4 // H3 // H2.
exists d, out4; split=> //.
- move: Ha sh4; rewrite /r; case: (avg) => /= [|[<-] //].
  by case: (out4) => [|row [|? ?]] //= [<-] [].
- split=> [k kr | t tlt].
    rewrite !E // !eqxx; split=> //; first by rewrite !ltn_eqF.
    by rewrite ltn_eqF.
  have [ov Hov Hcol] := Hst t tlt; exists ov => //.
  have Et k : k < r -> entry out4 k t = entry out1 k t.
    by move=> kr; rewrite E // !ltn_eqF // ltnW // ltnW.
  case: ov Hcol {Hov} => [v [col Hb Hcol]|Hcol].
    by exists col => // k kr; rewrite Et // -[t]add0n Hcol.
  move=> k kr; rewrite Et // -[t]add0n Hcol // entry_zeros //.
  by rewrite add0n ltn_addr.
Qed.

(** A name outside the documented set matches no branch. *)
Lemma stat_value_unknown ts d avg stat :
  stat \notin stat_names -> stat_value ts d avg stat = Ok None.
Proof.
rewrite /stat_names !inE !negb_or.
case/and5P=> H1 H2 H3 H4 /and3P[H5 H6 H7].
by rewrite /stat_value (negbTE H1) (negbTE H2) (negbTE H3) (negbTE H4)
           (negbTE H5) (negbTE H6) (negbTE H7).
Qed.

(** A documented name that is assigned is assigned a value. *)
Lemma stat_value_known ts d avg stat ov :
  stat \in stat_names -> stat_value ts d avg stat = Ok ov ->
  exists v, ov = Some v.
Proof.
rewrite /stat_names !inE /stat_value => Hin.
have branch (r : result (ndval F)) (f : ndval F -> ndval F) :
    bind r (fun w => Ok (Some (f w))) = Ok ov -> exists v, ov = Some v.
  by case: r => //= w [<-]; exists (f w).
case: ifP => [_|H1]; first exact: branch.
case: ifP => [_|H2]; first exact: branch.
case: ifP => [_|H3]; first exact: branch.
case: ifP => [_|H4]; first exact: branch.
case: ifP => [_|H5]; first exact: branch.
case: ifP => [_|H6]; first exact: (branch _ id).
case: ifP => [_|H7]; first exact: (branch _ id).
by move: Hin; rewrite H1 H2 H3 H4 H5 H6 H7.
Qed.

(** A value read from the Fst summary carries no NaN unless the summary
    does. *)
Lemma getitem_no_nan d key v :
  ~~ any_nan d -> getitem d key = Ok v -> all (predC isnan) (elems v).
Proof.
rewrite /any_nan; elim: d => [|kv d IH] //=.
rewrite has_cat negb_or => /andP[Hkv Hd].
case: ifP => _; last exact: IH.
by case=> <-; rewrite all_predC.
Qed.

(** The Fst columns of a run that did not stop at line 120. *)
Lemma fst_column_no_nan ts d avg stat v :
  stat \in [:: "fst_mean"; "fst_sd"] -> ~~ any_nan d ->
  stat_value ts d avg stat = Ok (Some v) -> all (predC isnan) (elems v).
Proof.
rewrite !inE => /orP[] /eqP -> Hd; rewrite /stat_value /=.
  by case Hg: (getitem d "mean") => [x|] //= [<-]; apply: getitem_no_nan Hg.
by case Hg: (getitem d "sd") => [x|] //= [<-]; apply: getitem_no_nan Hg.
Qed.

Lemma drop_last3 (s : seq (npfloat F)) m x y z :
  size s = m + 3 -> nth NaN s m = x -> nth NaN s m.+1 = y ->
  nth NaN s m.+2 = z -> drop m s = [:: x; y; z].
Proof.
move=> sz <- <- <-.
have : size (drop m s) = 3 by rewrite size_drop sz addKn.
have N i : nth NaN (drop m s) i = nth NaN s (m + i) by rewrite nth_drop.
move: (N 0) (N 1) (N 2); rewrite addn0 addn1 addn2.
by case: (drop m s) => [|a [|b [|c [|? ?]]]] //= -> -> ->.
Qed.

End ReducerProperties.

(** ** Properties of [_sim] *)

Section SimProperties.

Variable F : realFieldType.
Variable pow10 : F -> F.
Variable simulate : forall n : nat, sim_args F n -> result (MetaSample F).

Variable n : nat.
Implicit Types (p : params F) (host_theta host_Nm : F) (nrep : nat).
Implicit Types (stats : seq string) (migration : option 'M[F]_n).
Implicit Types (avg bp : bool) (a : ndarray F).

Local Open Scope nat_scope.

(** A call that returns went through the three stages. *)
Lemma sim_ok p host_theta host_Nm nrep stats migration avg bp a :
  _sim pow10 simulate p host_theta host_Nm nrep stats migration avg = (bp, Ok a) ->
  exists args ts,
    [/\ simulate_args pow10 p host_theta host_Nm nrep migration = Ok args,
        simulate args = Ok ts &
        summary_statistics ts p stats nrep avg = (bp, Ok a)].
Proof.
rewrite /_sim.
case Ha: (simulate_args _ _ _ _ _ _) => [args|]; last by [].
case Ht: (simulate _) => [ts|]; last by [].
by move=> Hs; exists args, ts.
Qed.

(** C6: a call that returns gives one row when [average_reps] is true and
    [num_replicates] rows when it is false. *)
Theorem C6_row_count p host_theta host_Nm nrep stats migration avg bp a :
  _sim pow10 simulate p host_theta host_Nm nrep stats migration avg = (bp, Ok a) ->
  if avg then exists row, a = Row row
  else exists2 t, a = Table t & size t = nrep.
Proof.
case: p => [[eta tau] rho] /sim_ok [args [ts [_ _ Hs]]].
have [d [out [_ _ [-> _] [sz _] _]]] := summary_statistics_ok Hs.
by move: sz; case: (avg) => /= sz; [exists (nth [::] out 0) | exists out].
Qed.

(** C9: every returned row has [len(stats) + 3] entries and ends with
    [eta], [tau], [rho], in this order. *)
Theorem C9_parameter_columns (eta tau rho : F) host_theta host_Nm nrep stats
    migration avg bp a :
  _sim pow10 simulate (eta, tau, rho) host_theta host_Nm nrep stats migration avg
    = (bp, Ok a) ->
  forall k, k < size (rows_of a) ->
    size (nth [::] (rows_of a) k) = size stats + 3 /\
    drop (size stats) (nth [::] (rows_of a) k) = [:: Num eta; Num tau; Num rho].
Proof.
move=> /sim_ok [args [ts [_ _ Hs]]].
have [d [out [_ _ [_ ->] [sz wd] [Hp _]]]] := summary_statistics_ok Hs.
rewrite sz => k kr; have [He Ht Hr] := Hp k kr.
by split; [exact: wd | apply: drop_last3 => //; exact: wd].
Qed.

(** C10: when [stats] holds neither "fst_mean" nor "fst_sd", line 119 reads
    the unassigned [fst_summ]: a call that gets as far as line 119 ends in
    [UnboundLocalError], and no call returns. *)
Theorem C10_fst_summ_unbound p host_theta host_Nm nrep stats migration avg :
  "fst_mean" \notin stats -> "fst_sd" \notin stats ->
  (forall args ts,
     simulate_args pow10 p host_theta host_Nm nrep migration = Ok args ->
     simulate args = Ok ts ->
     _sim pow10 simulate p host_theta host_Nm nrep stats migration avg =
       (false, Raise UnboundLocalError)) /\
  (forall bp a,
     _sim pow10 simulate p host_theta host_Nm nrep stats migration avg <>
       (bp, Ok a)).
Proof.
move=> Hm Hs.
have Hw : wants_fst stats = false by rewrite wants_fstE (negbTE Hm) (negbTE Hs).
split=> [args ts Ha Ht | bp a].
  case: p Ha => [[eta tau] rho] Ha.
  by rewrite /_sim Ha Ht summary_statisticsE Hw.
case: p => [[eta tau] rho] /sim_ok [args [ts [_ _ H]]].
have [d [out [[]]]] := summary_statistics_ok H.
by rewrite Hw.
Qed.

(** C7: an asymmetric matrix ends the call in [NotImplementedError], raised
    by the test of line 85, whatever the other arguments are; no inverse is
    taken and no entry rescaled. *)
Theorem C7_asymmetric_rejected p host_theta host_Nm nrep stats (m : 'M[F]_n) avg :
  ~~ symmetrical m ->
  build_migration (symbiont_Nm p host_Nm) (Some m) = Raise NotImplementedError /\
  _sim pow10 simulate p host_theta host_Nm nrep stats (Some m) avg =
    (false, Raise NotImplementedError).
Proof.
move=> Hm; have Hb := build_migration_asymmetric (symbiont_Nm p host_Nm) Hm.
split=> //; case: p Hb => [[eta tau] rho] Hb.
by rewrite /_sim /simulate_args Hb.
Qed.

(** C4, as the code has it: the only NaN looked for is one in the Fst
    summary, and finding it raises nothing: line 120 stops in the debugger
    and the run goes on.  In a call that returns without that stop, no
    entry of an Fst column is NaN; the other statistics are not examined. *)
Theorem C4_fst_nan_breakpoint p host_theta host_Nm nrep stats migration avg bp a :
  _sim pow10 simulate p host_theta host_Nm nrep stats migration avg = (bp, Ok a) ->
  exists args ts d,
    [/\ simulate_args pow10 p host_theta host_Nm nrep migration = Ok args,
        simulate args = Ok ts,
        fst ts avg = Ok d,
        bp = any_nan d
      & ~~ bp ->
        forall t, t < size stats ->
          nth "" stats t \in [:: "fst_mean"; "fst_sd"] ->
          forall k, k < size (rows_of a) -> ~~ isnan (entry (rows_of a) k t)].
Proof.
case: p => [[eta tau] rho] /sim_ok [args [ts [Ha Ht Hs]]].
have [d [out [[_ Hd] Hbp [_ ->] [sz _] [_ Hst]]]] := summary_statistics_ok Hs.
exists args, ts, d; split=> //; rewrite Hbp sz => Hnan t tlt Hin k kr.
have [ov Hov] := Hst t tlt.
have [|v Ev] := stat_value_known _ Hov.
  by move: Hin; rewrite /stat_names !inE => /orP[] ->; rewrite ?orbT.
rewrite Ev in Hov * => -[col Hb ->] //.
exact: (broadcast_elem (p := predC isnan) Hb kr (fst_column_no_nan Hin Hnan Hov)).
Qed.

(** C5, as the code has it: no name is refused.  In a call that returns,
    every row has [len(stats) + 3] entries; the column of a name outside
    the documented set keeps the zeros it was created with; the column of
    a documented name holds the value computed for that name. *)
Theorem C5_columns p host_theta host_Nm nrep stats migration avg bp a :
  _sim pow10 simulate p host_theta host_Nm nrep stats migration avg = (bp, Ok a) ->
  exists args ts d,
    [/\ simulate_args pow10 p host_theta host_Nm nrep migration = Ok args /\
        simulate args = Ok ts /\ fst ts avg = Ok d,
        forall k, k < size (rows_of a) ->
          size (nth [::] (rows_of a) k) = size stats + 3,
        forall t, t < size stats -> nth "" stats t \notin stat_names ->
          forall k, k < size (rows_of a) -> entry (rows_of a) k t = Num 0
      & forall t, t < size stats -> nth "" stats t \in stat_names ->
          exists v col,
            [/\ stat_value ts d avg (nth "" stats t) = Ok (Some v),
                broadcast (size (rows_of a)) v = Ok col
              & forall k, k < size (rows_of a) ->
                  entry (rows_of a) k t = nth NaN col k]].
Proof.
case: p => [[eta tau] rho] /sim_ok [args [ts [Ha Ht Hs]]].
have [d [out [[_ Hd] _ [_ ->] [sz wd] [_ Hst]]]] := summary_statistics_ok Hs.
exists args, ts, d; rewrite sz; split=> // t tlt Hin.
  have [ov] := Hst t tlt; rewrite stat_value_unknown // => -[<-].
  by [].
have [ov Hov] := Hst t tlt; have [v Ev] := stat_value_known Hin Hov.
by rewrite Ev in Hov * => -[col Hb Hcol]; exists v, col.
Qed.

End SimProperties.

(** ** Concrete runs of lines 74-105 *)

Lemma invmx_eq (G : fieldType) n (a b : 'M[G]_n) : a *m b = 1%:M -> invmx a = b.
Proof.
move=> ab; have [Ua _] := mulmx1_unit ab.
by rewrite -[RHS]mul1mx -(mulVmx Ua) -mulmxA ab mulmx1.
Qed.

Ltac ord_cases i := case: i => [[|[|[|?]]] ?] //=.

Lemma rel3_mul : rel3 *m rel3_inv = 1%:M.
Proof.
apply/matrixP => i j; rewrite !mxE !big_ord_recl big_ord0 !mxE /=.
by ord_cases i; ord_cases j; apply/eqP.
Qed.

Lemma rel3'_mul : rel3' *m rel3'_inv = 1%:M.
Proof.
apply/matrixP => i j; rewrite !mxE !big_ord_recl big_ord0 !mxE /=.
by ord_cases i; ord_cases j; apply/eqP.
Qed.

Lemma rel2_mul : rel2 *m rel2_inv = 1%:M.
Proof.
apply/matrixP => i j; rewrite !mxE !big_ord_recl big_ord0 !mxE /=.
by ord_cases i; ord_cases j; apply/eqP.
Qed.

Lemma mx_of_rows_sym n (rows : seq (seq rat)) :
  (forall i j : 'I_n, nth 0 (nth [::] rows i) j = nth 0 (nth [::] rows j) i) ->
  symmetrical (mx_of_rows n rows).
Proof. by move=> H; apply/eqP/matrixP => i j; rewrite !mxE. Qed.

Lemma rel3_sym : symmetrical rel3.
Proof. by apply: mx_of_rows_sym => i j; ord_cases i; ord_cases j. Qed.

Lemma rel3'_sym : symmetrical rel3'.
Proof. by apply: mx_of_rows_sym => i j; ord_cases i; ord_cases j. Qed.

Lemma rel2_sym : symmetrical rel2.
Proof. by apply: mx_of_rows_sym => i j; ord_cases i; ord_cases j. Qed.

Lemma skew2_asym : ~~ symmetrical skew2.
Proof.
apply/negP => /eqP /matrixP /(_ 0 1).
by rewrite !mxE /= => /eqP.
Qed.

(** The sum of all entries of a matrix given by its rows. *)
Lemma rel3_inv_total : \sum_i \sum_j rel3_inv i j = 0.
Proof. by rewrite !big_ord_recl !big_ord0 !mxE /=; apply/eqP. Qed.

Lemma rel3'_inv_total : \sum_i \sum_j rel3'_inv i j = 2 / 3.
Proof. by rewrite !big_ord_recl !big_ord0 !mxE /=; apply/eqP. Qed.




(** C2 fails at [tau = 2], [rho = 2]: [A = -4 <= 0], and the simulator is
    given the effective size [-1/4], the mutation rate [-1/4] and the
    migration rate [-1]. *)
Lemma C2_counterexample :
  A_of (0, 2, 2 : rat) <= 0 /\
  simulate_args pow10_rat (0, 2, 2) 1 2 10 (None : option 'M[rat]_2) =
    Ok (SimArgs (- (1 / 4)) 10 (fill_diagonal (np_full 2 (- 1)) 0) (- (1 / 4))).
Proof.
have A4 : A_of (0, 2, 2 : rat) = - 4%:R by apply/eqP.
split; first by rewrite A4 oppr_le0 ler0n.
have Hmig : build_migration (symbiont_Nm (0, 2, 2 : rat) 2) (None : option 'M_2)
            = Ok (fill_diagonal (np_full 2 (- 1)) 0).
  by rewrite build_migration_default; congr (Ok (fill_diagonal (np_full _ _) _)); apply/eqP.
rewrite (simulate_args_eq _ _ _ Hmig) A4 /=.
by congr (Ok (SimArgs _ _ _ _)); apply/eqP.
Qed.

(** The spec's scenario [tau = 0], [rho = 0]: [A = 0] and the call ends in
    the [ZeroDivisionError] of line 99. *)
Lemma C2_witness :
  simulate_args pow10_rat (0, 0, 0) 1 2 10 (None : option 'M[rat]_2) =
    Raise ZeroDivisionError.
Proof.
have Hmig := build_migration_default 2 (symbiont_Nm (0, 0, 0 : rat) 2).
have [-> _] := C2_no_domain_check pow10_rat 1 10 Hmig.
by have -> : A_of (0, 0, 0 : rat) = 0 by apply/eqP.
Defined.

(** The spec's scenario [eta = 0], [tau = 1], [rho = 1/2], [host_theta = 1],
    [host_Nm = 2]: [A = 1], effective size and mutation rate [1/4]. *)
Lemma C1_witness :
  [/\ A_of (0, 1, 1 / 2 : rat) = 1,
      symbiont_Nm (0, 1, 1 / 2 : rat) 2 = 1 &
      simulate_args pow10_rat (0, 1, 1 / 2) 1 2 10 (None : option 'M[rat]_2) =
        Ok (SimArgs (1 / 4) 10 (fill_diagonal (np_full 2 1) 0) (1 / 4))].
Proof.
have A1 : (1 + 1 / 2 * (1 - 1 / 2 * 1) * (1 - 1) ^+ 2 : rat) = 1 by apply/eqP.
have A0 : (1 + 1 / 2 * (1 - 1 / 2 * 1) * (1 - 1) ^+ 2 : rat) != 0.
  by rewrite A1 oner_neq0.
have [-> -> ->] :=
  @C1_parameter_transform rat pow10_rat 2 0 1 (1 / 2) 1 2 10 None _ A0
    (build_migration_default 2 _).
rewrite A1; split; [by [] | by apply/eqP |].
by congr (Ok (SimArgs _ _ (fill_diagonal (np_full _ _) _) _)); apply/eqP.
Defined.

(** Three populations, [symbiont_Nm = 6]: rate 3 between any two. *)
Lemma C8_witness :
  exists2 mig : 'M[rat]_3,
    build_migration 6 None = Ok mig &
    [/\ forall i j, i != j -> mig i j = 6 / (3 - 1)%:R,
        forall i, mig i i = 0 & mig^T = mig].
Proof. exact: (@C8_default_migration rat 3 6 isT). Defined.

Lemma rel2_inv_total : \sum_i \sum_j rel2_inv i j = 1.
Proof. by rewrite !big_ord_recl !big_ord0 !mxE /=; apply/eqP. Qed.

Lemma rel2_row_sums i : \sum_j rel2 i j = 2.
Proof. by rewrite !big_ord_recl !big_ord0 !mxE /=; ord_cases i; apply/eqP. Qed.

Lemma rel3_constant : migration_constant (invmx rel3) 1 = 0.
Proof.
by rewrite migration_constantE (invmx_eq rel3_mul) rel3_inv_total mulr0 mul0r.
Qed.

Lemma rel3'_constant : migration_constant (invmx rel3') 9 = 2.
Proof.
by rewrite migration_constantE (invmx_eq rel3'_mul) rel3'_inv_total; apply/eqP.
Qed.

Lemma rel2_constant : migration_constant (invmx rel2) 3 = 3 / 2.
Proof.
by rewrite migration_constantE (invmx_eq rel2_mul) rel2_inv_total; apply/eqP.
Qed.

(** C3 fails on two symmetric invertible matrices with zero diagonal.  For
    [rel3] the constant is zero and the result is the zero matrix, whatever
    [symbiont_Nm] is (here 1).  For [rel3'] and [symbiont_Nm = 9] the result
    is twice the matrix: its rows sum to 6, 8 and 10, 8 on average. *)
Lemma C3_counterexample :
  [/\ symmetrical rel3 /\ rel3 \in unitmx,
      build_migration 1 (Some rel3) = Ok (const_mx 0),
      symmetrical rel3' /\ rel3' \in unitmx &
      build_migration 9 (Some rel3') =
        Ok (mx_of_rows 3 [:: [:: 0; 2; 4]; [:: 2; 0; 6]; [:: 4; 6; 0]])].
Proof.
have [U3 _] := mulmx1_unit rel3_mul; have [U3' _] := mulmx1_unit rel3'_mul.
split; [by split; [exact: rel3_sym|] | | by split; [exact: rel3'_sym|] |].
- rewrite (build_migration_rescale _ rel3_sym U3) rel3_constant.
  by congr Ok; apply/matrixP => i j; rewrite !mxE mulr0.
- rewrite (build_migration_rescale _ rel3'_sym U3') rel3'_constant.
  congr Ok; apply/matrixP => i j; rewrite !mxE.
  by ord_cases i; ord_cases j; apply/eqP.
Qed.

(** Two populations at relative rate 2 and [symbiont_Nm = 3]: the constant
    is 3/2 and each row of the result sums to 3. *)
Lemma C3_witness :
  [/\ build_migration 3 (Some rel2) = Ok (mx_of_rows 2 [:: [:: 0; 3]; [:: 3; 0]]),
      forall i, \sum_j (mx_of_rows 2 [:: [:: 0; 3]; [:: 3; 0]]) i j = 3 &
      migration_constant (invmx (mx_of_rows 2 [:: [:: 0; 3]; [:: 3; 0]])) 3 = 1].
Proof.
have [U2 _] := mulmx1_unit rel2_mul.
have := C3_rescale 3 rel2_sym U2.
rewrite -/(migration_constant (invmx rel2) 3) rel2_constant /=.
have -> : \matrix_(i, j) (rel2 i j * (3 / 2)) =
          mx_of_rows 2 [:: [:: 0; 3]; [:: 3; 0]].
  apply/matrixP => i j; rewrite !mxE.
  by ord_cases i; ord_cases j; apply/eqP.
case=> H1 H2 H3; split=> //; first exact: (H2 2 rel2_row_sums).
exact: H3.
Defined.

(** ** Concrete runs of [_sim] *)

Lemma run_args :
  simulate_args pow10_rat (0, 1, 1 / 2) 1 2 2 (None : option 'M[rat]_2) =
    Ok (SimArgs (1 / 2 / (2 * 1)) 2
          (fill_diagonal (np_full 2 (symbiont_Nm (0, 1, 1 / 2) 2 / (2%:R - 1))) 0)
          (symbiont_theta pow10_rat (0, 1, 1 / 2) 1 / 2)).
Proof.
rewrite (simulate_args_eq _ _ _ (build_migration_default 2 _)).
by have -> : A_of (0, 1, 1 / 2 : rat) = 1 by apply/eqP.
Qed.

Lemma runE stats average_reps :
  run stats average_reps =
  summary_statistics sample2 (0, 1, 1 / 2) stats 2 average_reps.
Proof. by rewrite /run /_sim run_args. Qed.

Lemma run_fst_mean_sd_avg :
  run [:: "fst_mean"; "fst_sd"] true =
    (false, Ok (Row [:: Num (1 / 4); Num (1 / 8); Num 0; Num 1; Num (1 / 2)])).
Proof. by rewrite runE. Qed.

Lemma run_fst_mean_sd_reps :
  run [:: "fst_mean"; "fst_sd"] false =
    (false, Ok (Table [:: [:: Num (1 / 8); Num 0; Num 0; Num 1; Num (1 / 2)];
                          [:: Num (3 / 8); Num 0; Num 0; Num 1; Num (1 / 2)]])).
Proof. by rewrite runE. Qed.

Lemma run_unknown_name :
  run [:: "fst_mean"; "no_such_stat"] true =
    (false, Ok (Row [:: Num (1 / 4); Num 0; Num 0; Num 1; Num (1 / 2)])).
Proof. by rewrite runE. Qed.

(** C4 fails on the statistics ("fst_mean", "pi_h") without averaging: the
    NaN of [pi] on the second replicate is returned in the second row, with
    no exception and no stop at line 120. *)
Lemma C4_counterexample :
  run [:: "fst_mean"; "pi_h"] false =
    (false, Ok (Table [:: [:: Num (1 / 8); Num 1; Num 0; Num 1; Num (1 / 2)];
                          [:: Num (3 / 8); NaN; Num 0; Num 1; Num (1 / 2)]])).
Proof. by rewrite runE. Qed.

(** C5 fails on the statistics ("fst_mean", "no_such_stat"): the call
    returns a row, with 0 in the column of the unknown name. *)
Lemma C5_counterexample :
  "no_such_stat" \notin stat_names /\
  run [:: "fst_mean"; "no_such_stat"] true =
    (false, Ok (Row [:: Num (1 / 4); Num 0; Num 0; Num 1; Num (1 / 2)])).
Proof. by rewrite runE. Qed.

(** The row of the averaged run has no NaN in its two Fst columns. *)
Lemma C4_witness :
  let row : seq (npfloat rat) :=
    [:: Num (1 / 4); Num (1 / 8); Num 0; Num 1; Num (1 / 2)] in
  ~~ isnan (entry [:: row] 0 0) /\ ~~ isnan (entry [:: row] 0 1).
Proof.
have [args [ts [d [_ _ _ _ H]]]] := C4_fst_nan_breakpoint run_fst_mean_sd_avg.
by split; apply: (H isT).
Defined.

(** The row of the run with an unknown name: five entries, 0 in the
    column of the unknown name. *)
Lemma C5_witness :
  let row : seq (npfloat rat) :=
    [:: Num (1 / 4); Num 0; Num 0; Num 1; Num (1 / 2)] in
  size (nth [::] [:: row] 0) = (2 + 3)%N /\ entry [:: row] 0 1 = Num 0.
Proof.
have [args [ts [d [_ H1 H2 _]]]] := C5_columns run_unknown_name.
by split; [apply: H1 | apply: H2].
Defined.

(** One row with averaging, two rows for two replicates without. *)
Lemma C6_witness :
  (exists row,
     Row [:: Num (1 / 4); Num (1 / 8); Num 0; Num 1; Num (1 / 2)] = Row row
       :> ndarray rat) /\
  (exists2 t,
     Table [:: [:: Num (1 / 8); Num 0; Num 0; Num 1; Num (1 / 2)];
               [:: Num (3 / 8); Num 0; Num 0; Num 1; Num (1 / 2)]] = Table t
       :> ndarray rat & size t = 2%N).
Proof.
split.
- exact: (C6_row_count run_fst_mean_sd_avg).
- exact: (C6_row_count run_fst_mean_sd_reps).
Defined.

(** The second row of the run without averaging ends with 0, 1, 1/2. *)
Lemma C9_witness :
  let rows : seq (seq (npfloat rat)) :=
    [:: [:: Num (1 / 8); Num 0; Num 0; Num 1; Num (1 / 2)];
        [:: Num (3 / 8); Num 0; Num 0; Num 1; Num (1 / 2)]] in
  size (nth [::] rows 1) = (2 + 3)%N /\
  drop 2 (nth [::] rows 1) = [:: Num 0; Num 1; Num (1 / 2)].
Proof. exact: (C9_parameter_columns run_fst_mean_sd_reps (k := 1) isT). Defined.

(** Asking for "pi_h" alone ends in [UnboundLocalError]. *)
Lemma C10_witness : run [:: "pi_h"] true = (false, Raise UnboundLocalError).
Proof.
have [H _] := @C10_fst_summ_unbound rat pow10_rat engine2 2 (0, 1, 1 / 2) 1 2 2
  [:: "pi_h"] None true isT isT.
exact: (H _ _ run_args (erefl _)).
Defined.

(** The asymmetric [skew2] is refused. *)
Lemma C7_witness :
  build_migration (symbiont_Nm (0, 1, 1 / 2) 2) (Some skew2) =
    Raise NotImplementedError /\
  _sim pow10_rat engine2 (0, 1, 1 / 2) 1 2 2 [:: "fst_mean"] (Some skew2) true =
    (false, Raise NotImplementedError).
Proof. exact: (C7_asymmetric_rejected pow10_rat engine2 _ 1 _ 2 _ _ skew2_asym). Defined.
